(** * csbench: the amalgamation script [scripts/amalgamated.py]

    The script reads the eight source files of csbench, keeps the comment
    banner of [csbench.h] as a preamble, strips from every file its own
    banner, the inclusion of [csbench.h], the include guard and the blank
    lines at both ends, and writes the pieces, one after the other and
    separated by one blank line, to [csbench_amalgamated.c].

    The development embeds the script as it is written: Python strings
    are sequences of code points, the list and string operations are
    executable functions, exceptions are values of an error monad, and
    the file system is a finite map from names to the text of a file.

    The two sorting functions of the timing scripts [test/quicksort.py]
    and [tests/bubble.py] are embedded as well. *)

From Stdlib Require Import NArith String Ascii.
From stdpp Require Import gmap strings list sorting.
From Equations Require Import Equations.
From Equations.Prop Require Logic.

(** ** Python strings *)

Module Py.

(** A [str] is a sequence of Unicode code points. *)
Definition str := list N.

(** A literal: the code points of an ASCII text. *)
Definition lit (s : string) : str :=
  (λ a, N_of_ascii a) <$> list_ascii_of_string s.

(** The code point of the line feed and of the double quote. *)
Definition LF : N := 10.
Definition DQUOTE : N := 34.

(** [s.startswith(prefix)] *)
Fixpoint startswith (s prefix : str) {struct prefix} : bool :=
  match prefix with
  | [] => true
  | p :: prefix' =>
      match s with
      | [] => false
      | c :: s' => (c =? p)%N && startswith s' prefix'
      end
  end.

(** [needle in s]: the needle occurs at some position of [s]. *)
Fixpoint contains (needle s : str) : bool :=
  startswith s needle ||
  match s with
  | [] => false
  | _ :: s' => contains needle s'
  end.

(** The code points for which [str.isspace] holds (CPython's
    [_PyUnicode_IsWhitespace]). *)
Definition is_whitespace (c : N) : bool :=
  ((9 <=? c) && (c <=? 13) || (28 <=? c) && (c <=? 32)
   || (c =? 133) || (c =? 160) || (c =? 5760)
   || (8192 <=? c) && (c <=? 8202)
   || (c =? 8232) || (c =? 8233) || (c =? 8239) || (c =? 8287)
   || (c =? 12288))%N.

(** [s.isspace()]: at least one character, and all of them whitespace. *)
Definition isspace (s : str) : bool :=
  match s with
  | [] => false
  | _ :: _ => forallb is_whitespace s
  end.

(** [sep.join(parts)] for the empty separator. *)
Definition join (parts : list str) : str := concat parts.

(** [itertools.takewhile] and [itertools.dropwhile], made into lists. *)
Fixpoint takewhile {A} (p : A → bool) (l : list A) : list A :=
  match l with
  | [] => []
  | x :: l' => if p x then x :: takewhile p l' else []
  end.

Fixpoint dropwhile {A} (p : A → bool) (l : list A) : list A :=
  match l with
  | [] => []
  | x :: l' => if p x then dropwhile p l' else l
  end.

(** The exceptions the script can raise. *)
Inductive exn :=
  | IndexError
  | KeyError (key : string)
  | FileNotFoundError (name : string).

Inductive result (A : Type) :=
  | Ok (a : A)
  | Raise (e : exn).
Arguments Ok {A} a.
Arguments Raise {A} e.

#[export] Instance result_ret : MRet result := λ A a, Ok a.
#[export] Instance result_bind : MBind result := λ A B k m,
  match m with
  | Ok a => k a
  | Raise e => Raise e
  end.

End Py.

Import Py.

(** ** The content filter *)

Definition comment : str := lit "//".
Definition include_csbench_h : str :=
  lit "#include " ++ [DQUOTE] ++ lit "csbench.h" ++ [DQUOTE].
Definition ifndef_CSBENCH_H : str := lit "#ifndef CSBENCH_H".
Definition define_CSBENCH_H : str := lit "#define CSBENCH_H".
Definition endif_CSBENCH_H : str := lit "#endif // CSBENCH_H".

(** [while lines[0].isspace(): lines = lines[1:]] *)
Fixpoint strip_leading (lines : list str) : result (list str) :=
  match lines with
  | [] => Raise IndexError
  | l :: lines' => if isspace l then strip_leading lines' else Ok lines
  end.

(** [while lines[-1].isspace(): lines = lines[:-1]] *)
Equations? strip_trailing (lines : list str) : result (list str)
  by wf (length lines) lt :=
  strip_trailing lines with Logic.inspect (last lines) := {
    | exist _ None _ => Raise IndexError
    | exist _ (Some l) Hl with isspace l := {
        | true => strip_trailing (removelast lines)
        | false => Ok lines } }.
Proof.
  destruct lines as [|x lines]; [done|].
  rewrite (app_removelast_last (l:=x :: lines) x) at 2 by done.
  rewrite length_app. simpl. lia.
Qed.

Definition make_core_contents (lines : list str) : result (list str) :=
  let lines := dropwhile (λ it, startswith it comment) lines in
  let lines := List.filter (λ it, negb (contains include_csbench_h it)) lines in
  let lines := List.filter (λ it, negb (contains ifndef_CSBENCH_H it)) lines in
  let lines := List.filter (λ it, negb (contains define_CSBENCH_H it)) lines in
  let lines := List.filter (λ it, negb (contains endif_CSBENCH_H it)) lines in
  lines ← strip_leading lines;
  lines ← strip_trailing lines;
  Ok lines.

(** ** Loading the files *)

(** The file system: the text of every file that exists, by name. The
    text is what a read in text mode with [encoding="utf8"] decodes. *)
Abbreviation filesystem := (gmap string str).

(** [open(name, encoding="utf8")] for reading. *)
Definition open_read (fs : filesystem) (name : string) : result str :=
  match fs !! name with
  | Some text => Ok text
  | None => Raise (FileNotFoundError name)
  end.

Definition CR : N := 13.

(** [f.readlines()] of a file opened in text mode with universal
    newlines: a line ends after a line feed, a carriage return or the
    two in a row, each read as one line feed; the last line may have no
    terminator. *)
Fixpoint readlines (text : str) : list str :=
  match text with
  | [] => []
  | c :: text' =>
      if (c =? LF)%N then [LF] :: readlines text'
      else if (c =? CR)%N then
        match text' with
        | c' :: text'' =>
            if (c' =? LF)%N then [LF] :: readlines text''
            else [LF] :: readlines text'
        | [] => [[LF]]
        end
      else
        match readlines text' with
        | [] => [[c]]
        | l :: ls => (c :: l) :: ls
        end
  end.

Definition file_names : list string :=
  ["csbench.h"; "csbench.c"; "csbench_plot.c"; "csbench_perf.c";
   "csbench_utils.c"; "csbench_run.c"; "csbench_report.c";
   "csbench_analyze.c"]%string.

(** The loop that fills the dictionary [files], one name at a time. *)
Fixpoint load (fs : filesystem) (names : list string)
    (files : gmap string (list str)) : result (gmap string (list str)) :=
  match names with
  | [] => Ok files
  | name :: names' =>
      text ← open_read fs name;
      load fs names' (<[name := readlines text]> files)
  end.

(** [files[key]] *)
Definition getitem (files : gmap string (list str)) (key : string)
    : result (list str) :=
  match files !! key with
  | Some lines => Ok lines
  | None => Raise (KeyError key)
  end.

(** ** Preamble and assembly *)

Definition preample (files : gmap string (list str)) : result (list str) :=
  lines ← getitem files "csbench.h";
  Ok (takewhile (λ it, startswith it comment) lines).

(** [make_core_contents(files[name])] *)
Definition core (files : gmap string (list str)) (name : string)
    : result (list str) :=
  lines ← getitem files name;
  make_core_contents lines.

(** The sum is evaluated from the left: every operand is computed, then
    appended to what has been built so far. *)
Definition amalgamated_source (files : gmap string (list str))
    : result (list str) :=
  acc ← preample files;
  c ← core files "csbench.h"; let acc := acc ++ c in
  let acc := acc ++ [[LF]] in
  c ← core files "csbench_run.c"; let acc := acc ++ c in
  let acc := acc ++ [[LF]] in
  c ← core files "csbench_analyze.c"; let acc := acc ++ c in
  let acc := acc ++ [[LF]] in
  c ← core files "csbench_report.c"; let acc := acc ++ c in
  let acc := acc ++ [[LF]] in
  c ← core files "csbench_utils.c"; let acc := acc ++ c in
  let acc := acc ++ [[LF]] in
  c ← core files "csbench_plot.c"; let acc := acc ++ c in
  let acc := acc ++ [[LF]] in
  c ← core files "csbench_perf.c"; let acc := acc ++ c in
  let acc := acc ++ [[LF]] in
  c ← core files "csbench.c"; let acc := acc ++ c in
  Ok acc.

(** ** The whole script *)

Definition destination : string := "csbench_amalgamated.c".

(** Everything up to the text that is to be written. *)
Definition amalgamate (fs : filesystem) : result str :=
  files ← load fs file_names ∅;
  lines ← amalgamated_source files;
  Ok (join lines).

(** The script: the outcome and the file system it leaves. The
    destination is opened for writing only once the text is there. *)
Definition main (fs : filesystem) : result () * filesystem :=
  match amalgamate fs with
  | Ok text => (Ok (), <[destination := text]> fs)
  | Raise e => (Raise e, fs)
  end.

(** ** The sorting functions of the timing scripts

    The scripts sort a list of integers drawn at random and print the
    time it took; only the sorting functions are embedded. *)


(** [arr[i]] and [arr[i] = x] on a list, for an index that is not
    negative. *)
Definition list_getitem (arr : list Z) (i : nat) : result Z :=
  match arr !! i with
  | Some x => Ok x
  | None => Raise IndexError
  end.

Definition list_setitem (arr : list Z) (i : nat) (x : Z) : result (list Z) :=
  if decide (i < length arr) then Ok (<[i := x]> arr) else Raise IndexError.

(** [range(n)], where a negative [n] gives no index. *)
Definition range (n : nat) : list nat := seq 0 n.

(** [for i in indices: body], the body acting on the state [s]. *)
Fixpoint for_in {S} (indices : list nat) (body : nat → S → result S) (s : S)
    : result S :=
  match indices with
  | [] => Ok s
  | i :: indices' => s' ← body i s; for_in indices' body s'
  end.

(** The body of the inner loop of [bubblesort]: the test, then the
    exchange, whose right-hand side is read before the two stores. *)
Definition bubblesort_step (j : nat) (arr : list Z) : result (list Z) :=
  a ← list_getitem arr j;
  b ← list_getitem arr (j + 1);
  if (a >? b)%Z then
    b' ← list_getitem arr (j + 1);
    a' ← list_getitem arr j;
    arr ← list_setitem arr j b';
    list_setitem arr (j + 1) a'
  else Ok arr.

(** [bubblesort] of [tests/bubble.py]: the list as the call leaves it.
    The subtraction stops at zero, as a range of negative length is
    empty. *)
Definition bubblesort (arr : list Z) : result (list Z) :=
  for_in (range (length arr)) (λ i arr,
    for_in (range (length arr - i - 1)) bubblesort_step arr) arr.

(** ** Vocabulary of the statements *)

(** A line is blank when [isspace] holds of it. *)
Definition blank (l : str) : Prop := isspace l = true.

(** A block is trimmed when it has a line and neither its first nor its
    last line is blank. *)
Definition trimmed (c : list str) : Prop :=
  (∃ x, head c = Some x ∧ isspace x = false) ∧
  (∃ y, last c = Some y ∧ isspace y = false).

(** What [make_core_contents] has in [lines] when it reaches the two
    loops: the banner and the four kinds of marked lines are gone. *)
Definition filtered (lines : list str) : list str :=
  let lines := dropwhile (λ it, startswith it comment) lines in
  let lines := List.filter (λ it, negb (contains include_csbench_h it)) lines in
  let lines := List.filter (λ it, negb (contains ifndef_CSBENCH_H it)) lines in
  let lines := List.filter (λ it, negb (contains define_CSBENCH_H it)) lines in
  List.filter (λ it, negb (contains endif_CSBENCH_H it)) lines.

(** Two lines that follow one another in a list of lines. *)
Definition adjacent (x y : str) (lines : list str) : Prop :=
  ∃ u v, lines = u ++ x :: y :: v.

(** The order in which [amalgamated_source] names the files. *)
Definition merge_order : list string :=
  ["csbench.h"; "csbench_run.c"; "csbench_analyze.c"; "csbench_report.c";
   "csbench_utils.c"; "csbench_plot.c"; "csbench_perf.c"; "csbench.c"]%string.

(** The assembler in the words of the specification (section 4.4), for
    comparison with [amalgamated_source]: the preamble, then every block
    in order, with one separator between two consecutive blocks, none
    before the first and none after the last. *)
Fixpoint spec_separated (sep : str) (blocks : list (list str)) : list str :=
  match blocks with
  | [] => []
  | b :: blocks' =>
      match blocks' with
      | [] => b
      | _ :: _ => b ++ [sep] ++ spec_separated sep blocks'
      end
  end.

Definition spec_assemble (sep : str) (preamble : list str)
    (blocks : list (list str)) : list str :=
  preamble ++ spec_separated sep blocks.

(** The shape of the lines of a file: no line is empty, none holds a
    carriage return, a line feed is the last character of a line or is
    not in it, and every line but the last ends with a line feed. *)
Definition well_read (lines : list str) : Prop :=
  Forall (λ l, l ≠ [] ∧ (CR ∉ l) ∧ (LF ∉ removelast l)) lines ∧
  Forall (λ l, last l = Some LF) (removelast lines).

(** One run of the inner loop of [bubblesort] over [x :: l], as a
    function: the larger of two neighbours is carried to the right. *)
Fixpoint bubble (x : Z) (l : list Z) : list Z :=
  match l with
  | [] => [x]
  | y :: l' => if (x >? y)%Z then y :: bubble x l' else x :: bubble y l'
  end.

(** The list [arr] after [i] rounds of the outer loop on [arr0]: the same
    elements, the last [i] of them in order and not below any element
    before them. *)
Definition bubbled (i : nat) (arr0 arr : list Z) : Prop :=
  ∃ front back,
    arr = front ++ back ∧ length back = i ∧
    StronglySorted Z.le back ∧
    (∀ a b, a ∈ front → b ∈ back → (a ≤ b)%Z) ∧
    arr ≡ₚ arr0.

(** The four literals whose presence in a line removes the line. *)
Definition markers : list str :=
  [include_csbench_h; ifndef_CSBENCH_H; define_CSBENCH_H; endif_CSBENCH_H].

(** ** Inputs used as examples *)

(** A dictionary that holds the header only. *)
Definition header_only (lines : list str) : gmap string (list str) :=
  {[ "csbench.h"%string := lines ]}.

(** A header guarded by [H], and the same header guarded by [CSBENCH_H]. *)
Definition guarded_by_H : list str :=
  [lit "// lic"; lit "// lic2"; lit "#ifndef H"; lit "#define H";
   lit "int x;"; lit "#endif // H"].

Definition guarded_by_CSBENCH_H : list str :=
  [lit "// lic"; lit "// lic2"; lit "#ifndef CSBENCH_H";
   lit "#define CSBENCH_H"; lit "int x;"; lit "#endif // CSBENCH_H"].

(** A file that is a banner and a blank line. *)
Definition banner_only : list str := [lit "// banner" ++ [LF]; [LF]].

(** The text of that file. *)
Definition banner_only_text : str := lit "// banner" ++ [LF; LF].

(** A file whose first comment comes after a blank line. *)
Definition comment_after_blank : list str :=
  [[LF]; lit "// c" ++ [LF]; lit "int x;" ++ [LF]].

(** A file with a guard line that has text around the marker. *)
Definition marker_inside : list str :=
  [lit "int x;"; lit "  #ifndef CSBENCH_H /* guard */"; lit "int y;"].

(** Eight files of one line each, without banner. *)
Definition one_line_each : gmap string (list str) :=
  list_to_map
    [("csbench.h", [lit "a;"]); ("csbench_run.c", [lit "b;"]);
     ("csbench_analyze.c", [lit "c;"]); ("csbench_report.c", [lit "d;"]);
     ("csbench_utils.c", [lit "e;"]); ("csbench_plot.c", [lit "f;"]);
     ("csbench_perf.c", [lit "g;"]); ("csbench.c", [lit "h;"])]%string.

(** What the script assembles from [one_line_each]. *)
Definition one_line_each_source : list str :=
  [lit "a;"; [LF]; lit "b;"; [LF]; lit "c;"; [LF]; lit "d;"; [LF];
   lit "e;"; [LF]; lit "f;"; [LF]; lit "g;"; [LF]; lit "h;"].

(** A file system with the eight files, each a banner, the inclusion of
    the header, a blank line and a line of code. *)
Definition sample_text : str :=
  lit "// banner" ++ [LF] ++ include_csbench_h ++ [LF; LF]
    ++ lit "int x;" ++ [LF].

Definition sample_fs : filesystem :=
  list_to_map ((λ name, (name, sample_text)) <$> file_names).

(** * Properties *)

(** ** Strings and lists *)

Lemma startswith_spec s prefix :
  startswith s prefix = true ↔ ∃ t, s = prefix ++ t.
Proof.
  revert s. induction prefix as [|p prefix IH]; intros s; simpl.
  - split; [intros _; by exists s | done].
  - destruct s as [|c s].
    + split; [done | intros [t Ht]; discriminate].
    + rewrite andb_true_iff, N.eqb_eq, IH. split.
      * intros [-> [t ->]]. eauto.
      * intros [t [= -> ->]]. eauto.
Qed.

Lemma contains_spec needle s :
  contains needle s = true ↔ ∃ a b, s = a ++ needle ++ b.
Proof.
  induction s as [|c s IH]; simpl.
  - rewrite orb_false_r, startswith_spec. split.
    + intros [t Ht]. by exists [], t.
    + intros (a & b & H). symmetry in H.
      apply app_eq_nil in H as [-> H]. eauto.
  - rewrite orb_true_iff, startswith_spec, IH. split.
    + intros [[t Ht] | (a & b & ->)].
      * by exists [], t.
      * by exists (c :: a), b.
    + intros ([|c' a] & b & H).
      * left. eauto.
      * injection H as -> ->. right. eauto.
Qed.

Lemma takewhile_dropwhile {A} (p : A → bool) l :
  takewhile p l ++ dropwhile p l = l.
Proof.
  induction l as [|x l IH]; simpl; [done|].
  destruct (p x); simpl; [by rewrite IH | done].
Qed.

Lemma takewhile_Forall {A} (p : A → bool) l :
  Forall (λ x, p x = true) (takewhile p l).
Proof.
  induction l as [|x l IH]; simpl; [done|].
  destruct (p x) eqn:Hx; by constructor.
Qed.

Lemma dropwhile_head {A} (p : A → bool) l x :
  head (dropwhile p l) = Some x → p x = false.
Proof.
  induction l as [|y l IH]; simpl; [done|].
  destruct (p y) eqn:Hy; [done|]. simpl. by intros [= <-].
Qed.

Lemma dropwhile_id {A} (p : A → bool) l x :
  head l = Some x → p x = false → dropwhile p l = l.
Proof. destruct l as [|y l]; simpl; [done|]. by intros [= ->] ->. Qed.

Lemma dropwhile_shorter {A} (p : A → bool) l x :
  head l = Some x → p x = true → length (dropwhile p l) < length l.
Proof.
  destruct l as [|y l]; simpl; [done|]. intros [= ->] ->.
  enough (length (dropwhile p l) ≤ length l) by lia.
  clear. induction l as [|z l IH]; simpl; [done|].
  destruct (p z); simpl; lia.
Qed.

Lemma filter_id {A} (p : A → bool) l :
  Forall (λ x, p x = true) l → List.filter p l = l.
Proof.
  induction 1 as [|x l Hx _ IH]; simpl; [done|]. by rewrite Hx, IH.
Qed.

Lemma filter_Forall {A} (p : A → bool) l :
  Forall (λ x, p x = true) (List.filter p l).
Proof.
  induction l as [|x l IH]; simpl; [done|].
  destruct (p x) eqn:Hx; [by constructor | done].
Qed.

Lemma filter_keeps {A} (p q : A → bool) l :
  Forall (λ x, q x = true) l → Forall (λ x, q x = true) (List.filter p l).
Proof.
  induction 1 as [|x l Hx _ IH]; simpl; [done|].
  destruct (p x); [by constructor | done].
Qed.

Lemma filter_length_le {A} (p : A → bool) l :
  length (List.filter p l) ≤ length l.
Proof.
  induction l as [|x l IH]; simpl; [done|]. destruct (p x); simpl; lia.
Qed.

(** ** The two trimming loops *)

Lemma strip_trailing_nil : strip_trailing [] = Raise IndexError.
Proof. reflexivity. Qed.

Lemma strip_trailing_snoc lines l :
  strip_trailing (lines ++ [l]) =
  if isspace l then strip_trailing lines else Ok (lines ++ [l]).
Proof.
  rewrite strip_trailing_equation_1.
  destruct (Logic.inspect (last (lines ++ [l]))) as [[l'|] Hl'];
    pose proof Hl' as Hl; rewrite last_snoc in Hl; [|done].
  injection Hl as <-. simpl.
  destruct (isspace l); simpl; [|done]. by rewrite removelast_last.
Qed.

Lemma strip_leading_Ok lines r :
  strip_leading lines = Ok r →
  ∃ bl, lines = bl ++ r ∧ Forall blank bl ∧
        ∃ x, head r = Some x ∧ isspace x = false.
Proof.
  induction lines as [|l lines IH]; simpl; [done|].
  destruct (isspace l) eqn:Hl.
  - intros (bl & -> & Hbl & Hx)%IH. exists (l :: bl). split; [done|].
    split; [by constructor | done].
  - intros [= <-]. exists []. split; [done|]. split; [constructor | eauto].
Qed.

Lemma strip_leading_Raise lines e :
  strip_leading lines = Raise e ↔ e = IndexError ∧ Forall blank lines.
Proof.
  induction lines as [|l lines IH]; simpl.
  - split; [by intros [= <-] | by intros [-> _]].
  - destruct (isspace l) eqn:Hl.
    + rewrite IH. split; intros [-> H]; split; try done.
      * by constructor.
      * by inversion H.
    + split; [done|]. intros [_ H]. inversion H as [|?? Hb]. congruence.
Qed.

Lemma strip_leading_id lines x :
  head lines = Some x → isspace x = false → strip_leading lines = Ok lines.
Proof. destruct lines as [|l lines]; simpl; [done|]. by intros [= ->] ->. Qed.

Lemma strip_trailing_Ok lines r :
  strip_trailing lines = Ok r →
  ∃ bl, lines = r ++ bl ∧ Forall blank bl ∧
        ∃ y, last r = Some y ∧ isspace y = false.
Proof.
  induction lines as [|l lines IH] using rev_ind; [done|].
  rewrite strip_trailing_snoc. destruct (isspace l) eqn:Hl.
  - intros (bl & -> & Hbl & Hy)%IH. exists (bl ++ [l]).
    split; [by rewrite app_assoc|]. split; [|done].
    apply Forall_app. split; [done|]. by constructor.
  - intros [= <-]. exists []. split; [by rewrite app_nil_r|].
    split; [constructor|]. exists l. by rewrite last_snoc.
Qed.

Lemma strip_trailing_Raise lines e :
  strip_trailing lines = Raise e ↔ e = IndexError ∧ Forall blank lines.
Proof.
  induction lines as [|l lines IH] using rev_ind.
  - split; [by intros [= <-] | by intros [-> _]].
  - rewrite strip_trailing_snoc, Forall_app, Forall_singleton.
    unfold blank at 2. destruct (isspace l).
    + rewrite IH. intuition.
    + split; [done | by intros (_ & _ & ?)].
Qed.

Lemma strip_trailing_id lines y :
  last lines = Some y → isspace y = false → strip_trailing lines = Ok lines.
Proof.
  destruct lines as [|l lines _] using rev_ind; [done|].
  rewrite last_snoc, strip_trailing_snoc. by intros [= ->] ->.
Qed.

(** After the first loop the second one cannot run out of lines: it
    stops at the first line at the latest. *)
Lemma strip_trailing_head lines x :
  head lines = Some x → isspace x = false →
  ∃ r, strip_trailing lines = Ok r ∧ head r = Some x.
Proof.
  intros Hhd Hx. induction lines as [|l lines IH] using rev_ind; [done|].
  rewrite strip_trailing_snoc. destruct (isspace l) eqn:Hl; [|eauto].
  apply IH. destruct lines as [|l' lines]; [|done].
  simpl in Hhd. congruence.
Qed.

(** ** The content filter *)

Lemma make_core_contents_unfold lines :
  make_core_contents lines =
  (mid ← strip_leading (filtered lines); r ← strip_trailing mid; Ok r).
Proof. reflexivity. Qed.

Lemma make_core_contents_Ok lines r :
  make_core_contents lines = Ok r ↔
  ∃ mid, strip_leading (filtered lines) = Ok mid ∧ strip_trailing mid = Ok r.
Proof.
  rewrite make_core_contents_unfold. unfold mbind, result_bind. split.
  - destruct (strip_leading (filtered lines)) as [mid|]; [|done].
    destruct (strip_trailing mid) eqn:Ht; [|done]. intros [= <-]. eauto.
  - intros (mid & -> & ->). done.
Qed.

(** The filter raises exactly when nothing but blank lines is left for
    the loops, and then it is the index error of an empty list. *)
Lemma make_core_contents_Raise lines e :
  make_core_contents lines = Raise e ↔
  e = IndexError ∧ Forall blank (filtered lines).
Proof.
  rewrite make_core_contents_unfold. unfold mbind, result_bind.
  destruct (strip_leading (filtered lines)) as [mid|e'] eqn:Hs.
  - apply strip_leading_Ok in Hs as (bl & Hf & _ & x & Hx & Hsp).
    destruct (strip_trailing_head mid x Hx Hsp) as (r & -> & _).
    split; [done|]. intros [_ Hall]. rewrite Hf in Hall.
    apply Forall_app in Hall as [_ Hall].
    destruct mid as [|l mid]; [done|]. injection Hx as ->.
    inversion Hall as [|?? Hb]. unfold blank in Hb. congruence.
  - apply strip_leading_Raise in Hs as [-> Hall]. split.
    + by intros [= <-].
    + by intros [-> _].
Qed.

Lemma make_core_contents_inv lines r :
  make_core_contents lines = Ok r →
  ∃ a b, filtered lines = a ++ r ++ b ∧ Forall blank a ∧ Forall blank b ∧
         trimmed r.
Proof.
  intros (mid & Hl & Ht)%make_core_contents_Ok.
  apply strip_leading_Ok in Hl as (a & Hf & Ha & x & Hx & Hsp).
  destruct (strip_trailing_head mid x Hx Hsp) as (r' & Ht' & Hhd).
  rewrite Ht in Ht'. injection Ht' as <-.
  apply strip_trailing_Ok in Ht as (b & -> & Hb & Hy).
  exists a, b. repeat split; eauto.
Qed.

Lemma filtered_no_marker lines m :
  m ∈ markers → Forall (λ l, negb (contains m l) = true) (filtered lines).
Proof.
  unfold markers, filtered. rewrite !elem_of_cons, elem_of_nil.
  intros [->|[->|[->|[->|[]]]]];
    repeat first [apply filter_Forall | apply filter_keeps].
Qed.

Lemma filtered_id r x :
  head r = Some x → startswith x comment = false →
  (∀ m, m ∈ markers → Forall (λ l, negb (contains m l) = true) r) →
  filtered r = r.
Proof.
  intros Hx Hc Hm. unfold filtered. rewrite (dropwhile_id _ r x) by done.
  assert (∀ m, m ∈ markers →
    List.filter (λ it, negb (contains m it)) r = r) as Hid
    by (intros m ?; by apply filter_id, Hm).
  rewrite !Hid; [done|..]; unfold markers; set_solver.
Qed.

Lemma filtered_shorter r x :
  head r = Some x → startswith x comment = true →
  length (filtered r) < length r.
Proof.
  intros Hx Hc. unfold filtered.
  pose proof (dropwhile_shorter (λ it, startswith it comment) r x Hx Hc).
  do 4 (eapply Nat.le_lt_trans; [apply filter_length_le|]). done.
Qed.

(** ** Claims on the content filter *)

(** C1. The specification requires that a file of which only blank lines,
    or no line, are left after the banner and the marked lines are
    removed be filtered without failure. The script does not do that: in
    this case the first loop reads [lines[0]] of a list that has become
    empty, and [make_core_contents] raises [IndexError]. *)
Theorem make_core_contents_blank_raises lines :
  Forall blank (filtered lines) → make_core_contents lines = Raise IndexError.
Proof. intros H. by apply make_core_contents_Raise. Qed.

Lemma make_core_contents_blank_raises_witness :
  Forall blank (filtered banner_only) ∧
  make_core_contents banner_only = Raise IndexError.
Proof.
  assert (Forall blank (filtered banner_only)) as H
    by (vm_compute; repeat constructor).
  split; [exact H | exact (make_core_contents_blank_raises banner_only H)].
Defined.

(** The same through the whole script: with such a file in the place of
    [csbench_plot.c] the run ends with the index error and writes
    nothing. *)
Example banner_only_file_aborts :
  readlines banner_only_text = banner_only ∧
  main (<["csbench_plot.c"%string := banner_only_text]> sample_fs)
  = (Raise IndexError,
     <["csbench_plot.c"%string := banner_only_text]> sample_fs).
Proof. split; vm_compute; reflexivity. Qed.

(** C2, as stated, fails: the guard of the example is named [H], the
    filter looks for [CSBENCH_H], and the three guard lines stay. *)
Lemma guarded_by_H_core_is_not_one_line :
  core (header_only guarded_by_H) "csbench.h" ≠ Ok [lit "int x;"].
Proof. vm_compute. discriminate. Qed.

(** C2, amended. For the header of the example the preamble is its two
    comment lines and the core is the four lines after them, guard
    included; with the guard named [CSBENCH_H] the preamble is the same
    and the core is the single line [int x;]. *)
Theorem scenario_A :
  preample (header_only guarded_by_H) = Ok [lit "// lic"; lit "// lic2"] ∧
  core (header_only guarded_by_H) "csbench.h" =
    Ok [lit "#ifndef H"; lit "#define H"; lit "int x;"; lit "#endif // H"] ∧
  preample (header_only guarded_by_CSBENCH_H) =
    Ok [lit "// lic"; lit "// lic2"] ∧
  core (header_only guarded_by_CSBENCH_H) "csbench.h" = Ok [lit "int x;"].
Proof. repeat split; vm_compute; reflexivity. Qed.

(** C3, as stated, fails: a comment that the first pass leaves at the
    head of its result is a banner for the second pass. *)
Lemma filter_twice_differs :
  (make_core_contents comment_after_blank ≫= make_core_contents)
  ≠ make_core_contents comment_after_blank.
Proof. vm_compute. discriminate. Qed.

(** C3, amended. When the filter returns [r], filtering [r] again returns
    [r] if and only if the first line of [r] does not start with [//]. *)
Theorem make_core_contents_twice lines r :
  make_core_contents lines = Ok r →
  (make_core_contents r = Ok r ↔
   ∃ x, head r = Some x ∧ startswith x comment = false).
Proof.
  intros (a & b & Hf & _ & _ & Htr)%make_core_contents_inv.
  destruct Htr as [(x & Hx & Hsp) (y & Hy & Hsy)].
  assert (∀ m, m ∈ markers → Forall (λ l, negb (contains m l) = true) r)
    as Hm.
  { intros m Hin. pose proof (filtered_no_marker lines m Hin) as H.
    rewrite Hf in H. by apply Forall_app in H as [_ [H _]%Forall_app]. }
  split.
  - intros (a' & b' & Hf' & _)%make_core_contents_inv.
    exists x. split; [done|].
    destruct (startswith x comment) eqn:Hc; [|done].
    pose proof (filtered_shorter r x Hx Hc) as Hlt.
    rewrite Hf', !length_app in Hlt. lia.
  - intros (x' & Hx' & Hc). rewrite Hx in Hx'. injection Hx' as <-.
    apply make_core_contents_Ok. exists r.
    rewrite (filtered_id r x) by done.
    split; [by apply (strip_leading_id r x) | by apply (strip_trailing_id r y)].
Qed.

Lemma make_core_contents_twice_witness :
  make_core_contents guarded_by_CSBENCH_H = Ok [lit "int x;"] ∧
  (make_core_contents [lit "int x;"] = Ok [lit "int x;"] ↔
   ∃ x, head [lit "int x;"] = Some x ∧ startswith x comment = false).
Proof.
  assert (make_core_contents guarded_by_CSBENCH_H = Ok [lit "int x;"]) as H
    by (vm_compute; reflexivity).
  split; [exact H|].
  exact (make_core_contents_twice guarded_by_CSBENCH_H [lit "int x;"] H).
Defined.

(** C4. The preamble, the longest run of lines starting with [//] at the
    head of the header, followed by what [dropwhile] with the same test
    keeps of the header, is the header. *)
Theorem preample_rest files lines :
  files !! "csbench.h"%string = Some lines →
  ∃ p, preample files = Ok p ∧
       p ++ dropwhile (λ it, startswith it comment) lines = lines.
Proof.
  intros H. unfold preample, getitem. rewrite H. simpl.
  eexists. split; [reflexivity|]. apply takewhile_dropwhile.
Qed.

Lemma preample_rest_witness :
  header_only guarded_by_H !! "csbench.h"%string = Some guarded_by_H ∧
  ∃ p, preample (header_only guarded_by_H) = Ok p ∧
       p ++ dropwhile (λ it, startswith it comment) guarded_by_H
       = guarded_by_H.
Proof.
  assert (header_only guarded_by_H !! "csbench.h"%string = Some guarded_by_H)
    as H by (vm_compute; reflexivity).
  split; [exact H | exact (preample_rest _ _ H)].
Defined.

(** C9. A line in which one of the four markers occurs, at any position
    and with any text around it, is not in the result of the filter. *)
Theorem marked_lines_removed lines r m l a b :
  make_core_contents lines = Ok r →
  m ∈ markers →
  l = a ++ m ++ b →
  l ∉ r.
Proof.
  intros (a' & b' & Hf & _)%make_core_contents_inv Hm -> Hin.
  pose proof (filtered_no_marker lines m Hm) as H. rewrite Hf in H.
  apply Forall_app in H as [_ [H _]%Forall_app].
  rewrite Forall_forall in H. apply H in Hin.
  apply negb_true_iff in Hin.
  assert (contains m (a ++ m ++ b) = true) by (apply contains_spec; eauto).
  congruence.
Qed.

Lemma marked_lines_removed_witness :
  make_core_contents marker_inside = Ok [lit "int x;"; lit "int y;"] ∧
  ifndef_CSBENCH_H ∈ markers ∧
  lit "  #ifndef CSBENCH_H /* guard */"
    = lit "  " ++ ifndef_CSBENCH_H ++ lit " /* guard */" ∧
  lit "  #ifndef CSBENCH_H /* guard */" ∉ [lit "int x;"; lit "int y;"].
Proof.
  assert (make_core_contents marker_inside = Ok [lit "int x;"; lit "int y;"])
    as H1 by (vm_compute; reflexivity).
  assert (ifndef_CSBENCH_H ∈ markers) as H2
    by (unfold markers; apply list_elem_of_further, list_elem_of_here).
  assert (lit "  #ifndef CSBENCH_H /* guard */"
          = lit "  " ++ ifndef_CSBENCH_H ++ lit " /* guard */") as H3
    by (vm_compute; reflexivity).
  split; [exact H1|]. split; [exact H2|]. split; [exact H3|].
  exact (marked_lines_removed _ _ _ _ _ _ H1 H2 H3).
Defined.

(** ** The assembly *)

Lemma result_bind_Ok {A B} (m : result A) (k : A → result B) b :
  m ≫= k = Ok b ↔ ∃ a, m = Ok a ∧ k a = Ok b.
Proof.
  unfold mbind, result_bind. destruct m as [a|e]; split.
  - eauto.
  - by intros (? & [= <-] & ?).
  - done.
  - by intros (? & ? & ?).
Qed.

(** The sum, read with [++] associated to the right. *)
Lemma amalgamated_source_Ok files out :
  amalgamated_source files = Ok out ↔
  ∃ p c1 c2 c3 c4 c5 c6 c7 c8,
    preample files = Ok p ∧
    core files "csbench.h" = Ok c1 ∧
    core files "csbench_run.c" = Ok c2 ∧
    core files "csbench_analyze.c" = Ok c3 ∧
    core files "csbench_report.c" = Ok c4 ∧
    core files "csbench_utils.c" = Ok c5 ∧
    core files "csbench_plot.c" = Ok c6 ∧
    core files "csbench_perf.c" = Ok c7 ∧
    core files "csbench.c" = Ok c8 ∧
    out = p ++ c1 ++ [[LF]] ++ c2 ++ [[LF]] ++ c3 ++ [[LF]] ++ c4 ++ [[LF]]
            ++ c5 ++ [[LF]] ++ c6 ++ [[LF]] ++ c7 ++ [[LF]] ++ c8.
Proof.
  unfold amalgamated_source. split.
  - intros H. repeat apply result_bind_Ok in H as (? & ? & H).
    injection H as <-. do 9 eexists. repeat (split; [eassumption|]).
    by rewrite <- !app_assoc.
  - intros (p & c1 & c2 & c3 & c4 & c5 & c6 & c7 & c8 & -> & -> & -> & ->
            & -> & -> & -> & -> & -> & ->).
    simpl. by rewrite <- !app_assoc.
Qed.

Lemma amalgamated_source_blocks files out :
  amalgamated_source files = Ok out ↔
  ∃ p blocks,
    preample files = Ok p ∧
    Forall2 (λ name c, core files name = Ok c) merge_order blocks ∧
    out = spec_assemble [LF] p blocks.
Proof.
  rewrite amalgamated_source_Ok. unfold merge_order. split.
  - intros (p & c1 & c2 & c3 & c4 & c5 & c6 & c7 & c8 & Hp & H1 & H2 & H3
            & H4 & H5 & H6 & H7 & H8 & ->).
    exists p, [c1; c2; c3; c4; c5; c6; c7; c8].
    split; [done|]. split; [|done]. by repeat constructor.
  - intros (p & blocks & Hp & Hb & ->).
    repeat (apply Forall2_cons_inv_l in Hb as (? & ? & ? & Hb & ->)).
    apply Forall2_nil_inv_l in Hb as ->. do 9 eexists.
    repeat (split; [eassumption|]). done.
Qed.

(** ** Blocks, separators and blank lines *)

Lemma comment_not_blank x : startswith x comment = true → isspace x = false.
Proof. intros [t ->]%startswith_spec. reflexivity. Qed.

Lemma trimmed_nonempty c : trimmed c → c ≠ [].
Proof. by intros [(x & Hx & _) _] ->. Qed.

Lemma head_app_nonempty {A} (a b : list A) : a ≠ [] → head (a ++ b) = head a.
Proof. by destruct a. Qed.

Lemma last_app_nonempty {A} (a b : list A) : b ≠ [] → last (a ++ b) = last b.
Proof.
  destruct b as [|y b _] using rev_ind; [done|]. intros _.
  by rewrite app_assoc, !last_snoc.
Qed.

Lemma trimmed_app a sep b : trimmed a → trimmed b → trimmed (a ++ [sep] ++ b).
Proof.
  intros Ha Hb. pose proof (trimmed_nonempty a Ha).
  pose proof (trimmed_nonempty b Hb).
  destruct Ha as [Ha _], Hb as [_ Hb]. split.
  - by rewrite head_app_nonempty.
  - by rewrite app_assoc, last_app_nonempty.
Qed.

Lemma spec_separated_cons sep b blocks :
  blocks ≠ [] →
  spec_separated sep (b :: blocks) = b ++ [sep] ++ spec_separated sep blocks.
Proof. by destruct blocks. Qed.

Lemma spec_separated_trimmed sep blocks :
  blocks ≠ [] → Forall trimmed blocks → trimmed (spec_separated sep blocks).
Proof.
  induction blocks as [|b blocks IH]; [done|]. intros _ Hall.
  apply Forall_cons in Hall as [Hb Hall].
  destruct (decide (blocks = [])) as [->|Hne]; [done|].
  rewrite spec_separated_cons by done. apply trimmed_app; auto.
Qed.

(** The separator number [k] splits the assembled blocks in two. *)
Lemma spec_separated_split sep blocks k :
  0 < k < length blocks →
  spec_separated sep blocks =
  spec_separated sep (take k blocks) ++ [sep] ++ spec_separated sep (drop k blocks).
Proof.
  revert k. induction blocks as [|b blocks IH]; intros k Hk; simpl in Hk; [lia|].
  destruct k as [|k]; [lia|]. rewrite firstn_cons, skipn_cons.
  assert (blocks ≠ []) by (intros ->; simpl in Hk; lia).
  rewrite spec_separated_cons by done.
  destruct k as [|k]; [by rewrite take_0, drop_0|].
  rewrite (IH (S k)) by lia.
  rewrite (spec_separated_cons _ _ (take (S k) blocks)).
  - by rewrite <- !app_assoc.
  - destruct blocks; done.
Qed.

Lemma adjacent_app x y a b :
  adjacent x y (a ++ b) →
  adjacent x y a ∨ (last a = Some x ∧ head b = Some y) ∨ adjacent x y b.
Proof.
  intros (u & v & H). apply app_eq_inv in H as [(k & -> & Hk)|(k & -> & ->)].
  - destruct k as [|x' [|y' k]]; simpl in Hk.
    + right; right. exists [], v. by rewrite <- Hk.
    + injection Hk as <- <-. right; left. by rewrite last_snoc.
    + injection Hk as <- <- ->. left. by exists u, k.
  - right; right. by exists k, v.
Qed.

Lemma adjacent_singleton x y z : ¬ adjacent x y [z].
Proof.
  intros (u & v & H). apply (f_equal length) in H.
  rewrite length_app in H. simpl in H. lia.
Qed.

(** Two blank lines that follow one another in the assembled blocks
    follow one another inside one of the blocks. *)
Lemma spec_separated_blank_pair sep blocks x y :
  Forall trimmed blocks →
  adjacent x y (spec_separated sep blocks) → blank x → blank y →
  ∃ c, c ∈ blocks ∧ adjacent x y c.
Proof.
  unfold blank. intros Hall Hadj Hx Hy.
  induction blocks as [|b blocks IH].
  { destruct Hadj as (u & v & H). by destruct u. }
  apply Forall_cons in Hall as [Hb Hall].
  destruct (decide (blocks = [])) as [->|Hne].
  { exists b. split; [apply list_elem_of_here | done]. }
  rewrite spec_separated_cons in Hadj by done.
  pose proof (spec_separated_trimmed sep blocks Hne Hall) as [(h & Hh & Hsp) _].
  apply adjacent_app in Hadj as [Hadj|[[Hl _]|Hadj]].
  - exists b. split; [apply list_elem_of_here | done].
  - destruct Hb as [_ (l & Hl' & Hsl)]. congruence.
  - apply adjacent_app in Hadj as [Hadj|[[_ Hhd]|Hadj]].
    + by apply adjacent_singleton in Hadj.
    + congruence.
    + destruct (IH Hall Hadj) as (c & Hc & Hadjc).
      exists c. split; [by apply list_elem_of_further | done].
Qed.

Lemma core_trimmed files name c : core files name = Ok c → trimmed c.
Proof.
  unfold core. intros (lines & _ & H)%result_bind_Ok.
  by apply make_core_contents_inv in H as (_ & _ & _ & _ & _ & ?).
Qed.

Lemma cores_trimmed files names blocks :
  Forall2 (λ name c, core files name = Ok c) names blocks →
  Forall trimmed blocks.
Proof.
  induction 1 as [|name c names blocks Hc _ IH]; constructor; [|done].
  by apply (core_trimmed files name).
Qed.

Lemma preample_comments files p :
  preample files = Ok p → Forall (λ l, startswith l comment = true) p.
Proof.
  unfold preample. intros (lines & _ & [= <-])%result_bind_Ok.
  apply takewhile_Forall.
Qed.

Lemma adjacent_elem_of x y lines : adjacent x y lines → x ∈ lines.
Proof. intros (u & v & ->). apply elem_of_app. right. apply list_elem_of_here. Qed.

(** ** Claims on the assembly *)

(** C5, as stated, fails: between the blocks [a;] and [b;] the script
    puts the line made of a line feed, not the empty string, and six more
    blocks follow. *)
Lemma separator_is_not_the_empty_string :
  ∃ p out,
    preample one_line_each = Ok p ∧
    core one_line_each "csbench.h" = Ok [lit "a;"] ∧
    core one_line_each "csbench_run.c" = Ok [lit "b;"] ∧
    amalgamated_source one_line_each = Ok out ∧
    ∀ rest, out ≠ p ++ [lit "a;"; lit ""; lit "b;"] ++ rest.
Proof.
  exists [], one_line_each_source.
  repeat split; try (vm_compute; reflexivity).
  intros rest. vm_compute. discriminate.
Qed.

(** C5, amended. The output is the preamble, then the eight cores in the
    order of the sum, with the one line [LF] between two consecutive
    cores, nothing before the first core and nothing after the last: it
    is what the assembler of the specification builds with the separator
    [LF]. With the cores [a;] and [b;] in the first two places the output
    starts with the preamble followed by [a;], [LF] and [b;]. *)
Theorem amalgamated_source_assembles files p c1 c2 c3 c4 c5 c6 c7 c8 :
  preample files = Ok p →
  Forall2 (λ name c, core files name = Ok c) merge_order
    [c1; c2; c3; c4; c5; c6; c7; c8] →
  amalgamated_source files =
    Ok (p ++ c1 ++ [[LF]] ++ c2 ++ [[LF]] ++ c3 ++ [[LF]] ++ c4 ++ [[LF]]
          ++ c5 ++ [[LF]] ++ c6 ++ [[LF]] ++ c7 ++ [[LF]] ++ c8) ∧
  p ++ c1 ++ [[LF]] ++ c2 ++ [[LF]] ++ c3 ++ [[LF]] ++ c4 ++ [[LF]]
    ++ c5 ++ [[LF]] ++ c6 ++ [[LF]] ++ c7 ++ [[LF]] ++ c8
  = spec_assemble [LF] p [c1; c2; c3; c4; c5; c6; c7; c8].
Proof.
  intros Hp Hb. split; [|done].
  apply amalgamated_source_blocks. by exists p, [c1; c2; c3; c4; c5; c6; c7; c8].
Qed.

Lemma amalgamated_source_assembles_witness :
  amalgamated_source one_line_each =
    Ok ([] ++ [lit "a;"] ++ [[LF]] ++ [lit "b;"] ++ [[LF]] ++ [lit "c;"]
          ++ [[LF]] ++ [lit "d;"] ++ [[LF]] ++ [lit "e;"] ++ [[LF]]
          ++ [lit "f;"] ++ [[LF]] ++ [lit "g;"] ++ [[LF]] ++ [lit "h;"]).
Proof.
  refine (proj1 (amalgamated_source_assembles one_line_each []
    [lit "a;"] [lit "b;"] [lit "c;"] [lit "d;"] [lit "e;"] [lit "f;"]
    [lit "g;"] [lit "h;"] _ _)).
  - vm_compute. reflexivity.
  - unfold merge_order. repeat constructor; vm_compute; reflexivity.
Defined.

(** C6. In every output of the assembly the eight cores are trimmed: each
    has a line and neither begins nor ends with a blank line. Every one
    of the seven separators stands between two lines that are not blank,
    the last line of the core before it and the first line of the core
    after it, so that no two separators are adjacent; and two blank lines
    that follow one another in the output do so inside one of the
    cores. *)
Theorem separators_not_adjacent files out :
  amalgamated_source files = Ok out →
  ∃ p blocks,
    preample files = Ok p ∧
    Forall2 (λ name c, core files name = Ok c) merge_order blocks ∧
    out = spec_assemble [LF] p blocks ∧
    Forall trimmed blocks ∧
    (∀ k, 0 < k < length merge_order →
       ∃ before after x y,
         before = p ++ spec_separated [LF] (take k blocks) ∧
         after = spec_separated [LF] (drop k blocks) ∧
         out = before ++ [[LF]] ++ after ∧
         last before = Some x ∧ isspace x = false ∧
         head after = Some y ∧ isspace y = false) ∧
    (∀ x y, adjacent x y out → blank x → blank y →
       ∃ c, c ∈ blocks ∧ adjacent x y c).
Proof.
  intros (p & blocks & Hp & Hb & ->)%amalgamated_source_blocks.
  pose proof (cores_trimmed _ _ _ Hb) as Htr.
  pose proof (Forall2_length _ _ _ Hb) as Hlen.
  exists p, blocks. do 4 (split; [done|]). split.
  - intros k Hk. rewrite Hlen in Hk.
    assert (trimmed (spec_separated [LF] (take k blocks))) as [_ Hl].
    { apply spec_separated_trimmed; [|by apply Forall_take].
      intros H%(f_equal length). rewrite length_take in H. simpl in H. lia. }
    assert (trimmed (spec_separated [LF] (drop k blocks))) as Htd.
    { apply spec_separated_trimmed; [|by apply Forall_drop].
      intros H%(f_equal length). rewrite length_drop in H. simpl in H. lia. }
    destruct Hl as (x & Hx & Hsx). destruct Htd as [(y & Hy & Hsy) _].
    eexists _, _, x, y. split; [reflexivity|]. split; [reflexivity|].
    split; [|split; [|done]].
    + unfold spec_assemble.
      by rewrite (spec_separated_split [LF] blocks k), <- app_assoc.
    + rewrite last_app_nonempty; [done|]. intros H. by rewrite H in Hx.
  - intros x y Hadj Hx Hy. unfold spec_assemble in Hadj.
    assert (blocks ≠ []) as Hne by (intros ->; done).
    pose proof (spec_separated_trimmed [LF] blocks Hne Htr)
      as [(h & Hh & Hsh) _].
    apply adjacent_app in Hadj as [Hadj|[[_ Hhd]|Hadj]].
    + apply adjacent_elem_of in Hadj.
      pose proof (preample_comments _ _ Hp) as Hc.
      rewrite Forall_forall in Hc. apply Hc, comment_not_blank in Hadj.
      unfold blank in Hx. congruence.
    + unfold blank in Hy. congruence.
    + by apply (spec_separated_blank_pair [LF]).
Qed.

Lemma separators_not_adjacent_witness :
  amalgamated_source one_line_each = Ok one_line_each_source ∧
  ∃ p blocks,
    one_line_each_source = spec_assemble [LF] p blocks ∧
    Forall trimmed blocks.
Proof.
  assert (amalgamated_source one_line_each = Ok one_line_each_source) as H
    by (vm_compute; reflexivity).
  split; [exact H|].
  destruct (separators_not_adjacent one_line_each one_line_each_source H)
    as (p & blocks & _ & _ & Hout & Htr & _).
  exists p, blocks. split; [exact Hout | exact Htr].
Defined.

(** C10. The output has no separator after the last core. It is the
    preamble and the eight cores in the order [csbench.h],
    [csbench_run.c], [csbench_analyze.c], [csbench_report.c],
    [csbench_utils.c], [csbench_plot.c], [csbench_perf.c], [csbench.c],
    with seven separators in all, one between two consecutive cores, and
    its last line is the last line of the core of [csbench.c]. *)
Theorem no_trailing_separator files out :
  amalgamated_source files = Ok out →
  ∃ p c1 c2 c3 c4 c5 c6 c7 c8,
    preample files = Ok p ∧
    Forall2 (λ name c, core files name = Ok c)
      ["csbench.h"; "csbench_run.c"; "csbench_analyze.c";
       "csbench_report.c"; "csbench_utils.c"; "csbench_plot.c";
       "csbench_perf.c"; "csbench.c"]%string
      [c1; c2; c3; c4; c5; c6; c7; c8] ∧
    out = p ++ c1 ++ [[LF]] ++ c2 ++ [[LF]] ++ c3 ++ [[LF]] ++ c4 ++ [[LF]]
            ++ c5 ++ [[LF]] ++ c6 ++ [[LF]] ++ c7 ++ [[LF]] ++ c8 ∧
    length out =
      length p + (length c1 + length c2 + length c3 + length c4 + length c5
                  + length c6 + length c7 + length c8) + 7 ∧
    ∃ z, last c8 = Some z ∧ last out = Some z.
Proof.
  intros (p & c1 & c2 & c3 & c4 & c5 & c6 & c7 & c8 & Hp & H1 & H2 & H3
          & H4 & H5 & H6 & H7 & H8 & ->)%amalgamated_source_Ok.
  exists p, c1, c2, c3, c4, c5, c6, c7, c8.
  split; [done|]. split; [by repeat constructor|]. split; [done|]. split.
  - rewrite !length_app. simpl. unfold str. lia.
  - apply core_trimmed in H8 as Htr.
    pose proof (trimmed_nonempty _ Htr) as Hne.
    destruct Htr as [_ (z & Hz & _)]. exists z. split; [done|].
    rewrite !app_assoc. by rewrite last_app_nonempty.
Qed.

Lemma no_trailing_separator_witness :
  amalgamated_source one_line_each = Ok one_line_each_source ∧
  ∃ z, last one_line_each_source = Some z.
Proof.
  assert (amalgamated_source one_line_each = Ok one_line_each_source) as H
    by (vm_compute; reflexivity).
  split; [exact H|].
  destruct (no_trailing_separator one_line_each one_line_each_source H)
    as (p & c1 & c2 & c3 & c4 & c5 & c6 & c7 & c8 & _ & _ & _ & _ & z & _ & Hz).
  exists z. exact Hz.
Defined.

(** ** The whole script *)

Lemma load_missing fs names files name :
  name ∈ names → fs !! name = None →
  ∃ n, n ∈ names ∧ fs !! n = None ∧
       load fs names files = Raise (FileNotFoundError n).
Proof.
  revert files. induction names as [|name' names IH]; intros files Hin Hnone.
  { by apply elem_of_nil in Hin. }
  simpl. unfold open_read. destruct (fs !! name') as [text|] eqn:Hname'.
  - apply elem_of_cons in Hin as [->|Hin]; [congruence|].
    destruct (IH (<[name' := readlines text]> files) Hin Hnone)
      as (n & Hn & Hfs & Hload).
    exists n. split; [by apply list_elem_of_further | done].
  - exists name'. split; [apply list_elem_of_here | done].
Qed.

Lemma load_agree fs1 fs2 names files :
  (∀ name, name ∈ names → fs1 !! name = fs2 !! name) →
  load fs1 names files = load fs2 names files.
Proof.
  revert files. induction names as [|name names IH]; intros files Hagree.
  { done. }
  simpl. unfold open_read.
  rewrite <- (Hagree name) by apply list_elem_of_here.
  destruct (fs1 !! name) as [text|]; [|done]. simpl.
  apply IH. intros name' Hin. by apply Hagree, list_elem_of_further.
Qed.

(** C7. When one of the eight files does not exist, the script ends with
    the error of a file not found, raised for the first missing name in
    the order of [file_names], and leaves the file system as it was: the
    destination is neither created nor changed. *)
Theorem missing_fragment_aborts fs name :
  name ∈ file_names → fs !! name = None →
  ∃ n, n ∈ file_names ∧ fs !! n = None ∧
       main fs = (Raise (FileNotFoundError n), fs).
Proof.
  intros Hin Hnone.
  destruct (load_missing fs file_names ∅ name Hin Hnone) as (n & Hn & Hfs & Hl).
  exists n. split; [done|]. split; [done|].
  unfold main, amalgamate. by rewrite Hl.
Qed.

Lemma missing_fragment_aborts_witness :
  "csbench_perf.c"%string ∈ file_names ∧
  delete "csbench_perf.c"%string sample_fs !! "csbench_perf.c"%string = None ∧
  ∃ n, main (delete "csbench_perf.c"%string sample_fs)
       = (Raise (FileNotFoundError n), delete "csbench_perf.c"%string sample_fs).
Proof.
  assert ("csbench_perf.c"%string ∈ file_names) as H1
    by (unfold file_names; do 3 apply list_elem_of_further;
        apply list_elem_of_here).
  assert (delete "csbench_perf.c"%string sample_fs
            !! "csbench_perf.c"%string = None) as H2
    by (vm_compute; reflexivity).
  split; [exact H1|]. split; [exact H2|].
  destruct (missing_fragment_aborts _ _ H1 H2) as (n & _ & _ & Hmain).
  exists n. exact Hmain.
Defined.

(** C8. The text that the script writes is a function of the contents of
    the eight files: two file systems that agree on them give the same
    outcome and, when the script succeeds, the same text in the
    destination, whatever else they hold. *)
Theorem amalgamate_deterministic fs1 fs2 :
  (∀ name, name ∈ file_names → fs1 !! name = fs2 !! name) →
  amalgamate fs1 = amalgamate fs2 ∧
  (main fs1).1 = (main fs2).1 ∧
  ((main fs1).1 = Ok () →
   (main fs1).2 !! destination = (main fs2).2 !! destination).
Proof.
  intros Hagree.
  assert (amalgamate fs1 = amalgamate fs2) as Heq
    by (unfold amalgamate; by rewrite (load_agree fs1 fs2)).
  split; [done|]. unfold main. rewrite <- Heq.
  destruct (amalgamate fs1) as [text|e]; simpl; [|done].
  split; [done|]. intros _. by rewrite !lookup_insert_eq.
Qed.

Lemma amalgamate_deterministic_witness :
  amalgamate sample_fs
  = amalgamate (<[destination := lit "old"]> sample_fs).
Proof.
  refine (proj1 (amalgamate_deterministic sample_fs
                   (<[destination := lit "old"]> sample_fs) _)).
  intros name Hin. unfold file_names in Hin.
  repeat (apply elem_of_cons in Hin as [->|Hin]; [vm_compute; reflexivity|]).
  by apply elem_of_nil in Hin.
Defined.

(** * Further properties of the script *)

(** ** The content filter, completely *)

Lemma strip_leading_app_blank a lines :
  Forall blank a → strip_leading (a ++ lines) = strip_leading lines.
Proof.
  induction 1 as [|l a Hl _ IH]; simpl; [done|].
  unfold blank in Hl. by rewrite Hl.
Qed.

Lemma strip_trailing_app_blank lines b :
  Forall blank b → strip_trailing (lines ++ b) = strip_trailing lines.
Proof.
  induction b as [|l b IH] using rev_ind; intros Hb.
  { by rewrite app_nil_r. }
  apply Forall_app in Hb as [Hb Hl]. apply Forall_inv in Hl.
  rewrite app_assoc, strip_trailing_snoc. unfold blank in Hl. rewrite Hl. auto.
Qed.

Lemma elem_of_List_filter {A} (p : A → bool) l x :
  x ∈ List.filter p l ↔ x ∈ l ∧ p x = true.
Proof. rewrite !list_elem_of_In. apply filter_In. Qed.

Lemma List_filter_sublist {A} (p : A → bool) l :
  List.filter p l `sublist_of` l.
Proof.
  induction l as [|x l IH]; simpl; [done|].
  destruct (p x); [by apply sublist_skip | by apply sublist_cons].
Qed.

Lemma dropwhile_suffix {A} (p : A → bool) l :
  ∃ k, l = k ++ dropwhile p l.
Proof. exists (takewhile p l). by rewrite takewhile_dropwhile. Qed.

Lemma filtered_sublist lines :
  filtered lines `sublist_of` dropwhile (λ it, startswith it comment) lines.
Proof.
  unfold filtered. do 4 (etrans; [apply List_filter_sublist|]). done.
Qed.

Lemma elem_of_filtered lines l :
  l ∈ filtered lines ↔
  l ∈ dropwhile (λ it, startswith it comment) lines ∧
  ∀ m, m ∈ markers → contains m l = false.
Proof.
  unfold filtered, markers. rewrite !elem_of_List_filter, !negb_true_iff.
  split.
  - intros ((((Hin & H1) & H2) & H3) & H4). split; [done|].
    intros m Hm. repeat (apply elem_of_cons in Hm as [->|Hm]; [done|]).
    by apply elem_of_nil in Hm.
  - intros [Hin Hm].
    repeat split; [done|..]; apply Hm;
      eauto using list_elem_of_here, list_elem_of_further.
Qed.

(** X1. The filter returns [r] exactly when the lines left by the removal
    of the banner and of the marked lines are [r] between two runs of
    blank lines, and [r] is trimmed: what is returned is the stretch from
    the first to the last line that is not blank, with the blank lines
    inside it kept. *)
Theorem make_core_contents_spec lines r :
  make_core_contents lines = Ok r ↔
  ∃ a b, filtered lines = a ++ r ++ b ∧ Forall blank a ∧ Forall blank b ∧
         trimmed r.
Proof.
  split; [apply make_core_contents_inv|].
  intros (a & b & Hf & Ha & Hb & [(x & Hx & Hsx) (y & Hy & Hsy)]).
  apply make_core_contents_Ok. exists (r ++ b). rewrite Hf. split.
  - rewrite strip_leading_app_blank by done.
    apply (strip_leading_id _ x); [|done].
    rewrite head_app_nonempty; [done|]. intros H. by rewrite H in Hx.
  - rewrite strip_trailing_app_blank by done.
    by apply (strip_trailing_id r y).
Qed.

Lemma make_core_contents_Ok_nonblank lines r :
  make_core_contents lines = Ok r →
  ∃ l, l ∈ filtered lines ∧ isspace l = false.
Proof.
  intros (a & b & Hf & _ & _ & [(x & Hx & Hsx) _])%make_core_contents_inv.
  exists x. split; [|done]. rewrite Hf.
  destruct r as [|x' r]; [done|]. injection Hx as ->.
  apply elem_of_app. right. apply list_elem_of_here.
Qed.

Lemma make_core_contents_nonblank_Ok lines l :
  l ∈ filtered lines → isspace l = false →
  ∃ r, make_core_contents lines = Ok r.
Proof.
  intros Hin Hl.
  destruct (make_core_contents lines) as [r|e] eqn:Hm; [eauto|].
  apply make_core_contents_Raise in Hm as [_ Hall].
  rewrite Forall_forall in Hall. apply Hall in Hin.
  unfold blank in Hin. congruence.
Qed.

(** X2. The filter returns a result exactly when some line that is not
    blank is left after the banner and the marked lines are removed. *)
Theorem make_core_contents_succeeds_iff lines :
  (∃ r, make_core_contents lines = Ok r) ↔
  ∃ l, l ∈ filtered lines ∧ isspace l = false.
Proof.
  split.
  - intros [r H]. by apply (make_core_contents_Ok_nonblank lines r).
  - intros (l & Hin & Hl). by apply (make_core_contents_nonblank_Ok lines l).
Qed.

(** X3. The filter only removes lines: its result is made of lines of its
    input, in their order and unchanged, all taken from what follows the
    leading run of comment lines. *)
Theorem make_core_contents_sublist lines r :
  make_core_contents lines = Ok r →
  r `sublist_of` dropwhile (λ it, startswith it comment) lines ∧
  r `sublist_of` lines.
Proof.
  intros (a & b & Hf & _)%make_core_contents_inv.
  assert (r `sublist_of` dropwhile (λ it, startswith it comment) lines) as Hs.
  { etrans; [|apply filtered_sublist]. rewrite Hf.
    apply sublist_inserts_l, sublist_inserts_r. done. }
  split; [done|].
  destruct (dropwhile_suffix (λ it, startswith it comment) lines) as [k Hk].
  rewrite Hk. by apply sublist_inserts_l.
Qed.

Lemma make_core_contents_sublist_witness :
  make_core_contents guarded_by_CSBENCH_H = Ok [lit "int x;"] ∧
  [lit "int x;"] `sublist_of` guarded_by_CSBENCH_H.
Proof.
  assert (make_core_contents guarded_by_CSBENCH_H = Ok [lit "int x;"]) as H
    by (vm_compute; reflexivity).
  split; [exact H|].
  exact (proj2 (make_core_contents_sublist _ _ H)).
Defined.

(** X4. The filter keeps every line of code: a line that comes after the
    leading run of comment lines, holds none of the four markers and is
    not blank is in the result. *)
Theorem make_core_contents_keeps lines r l :
  make_core_contents lines = Ok r →
  l ∈ dropwhile (λ it, startswith it comment) lines →
  (∀ m, m ∈ markers → contains m l = false) →
  isspace l = false →
  l ∈ r.
Proof.
  intros (a & b & Hf & Ha & Hb & _)%make_core_contents_inv Hin Hm Hl.
  assert (l ∈ filtered lines) as Hfl by by apply elem_of_filtered.
  rewrite Hf, !elem_of_app in Hfl. rewrite Forall_forall in Ha, Hb.
  unfold blank in Ha, Hb. destruct Hfl as [H|[H|H]]; [|done|].
  - apply Ha in H. congruence.
  - apply Hb in H. congruence.
Qed.

Lemma make_core_contents_keeps_witness :
  make_core_contents marker_inside = Ok [lit "int x;"; lit "int y;"] ∧
  lit "int y;" ∈ [lit "int x;"; lit "int y;"].
Proof.
  assert (make_core_contents marker_inside = Ok [lit "int x;"; lit "int y;"])
    as H by (vm_compute; reflexivity).
  split; [exact H|].
  refine (make_core_contents_keeps marker_inside _ (lit "int y;") H _ _ _).
  - vm_compute. do 2 apply list_elem_of_further. apply list_elem_of_here.
  - intros m Hm. unfold markers in Hm.
    repeat (apply elem_of_cons in Hm as [->|Hm]; [vm_compute; reflexivity|]).
    by apply elem_of_nil in Hm.
  - vm_compute. reflexivity.
Defined.

(** ** The preamble *)

Lemma takewhile_app_stop {A} (p : A → bool) k rest :
  Forall (λ x, p x = true) k →
  (∀ x, head rest = Some x → p x = false) →
  takewhile p (k ++ rest) = k.
Proof.
  intros Hk Hrest. induction Hk as [|x k Hx _ IH]; simpl.
  - destruct rest as [|y rest]; simpl; [done|]. by rewrite (Hrest y).
  - by rewrite Hx, IH.
Qed.

(** X5. The preamble is the longest run of comment lines at the head of
    the header: it is the one prefix of the header made of lines that
    start with [//] and followed by no such line. *)
Theorem preample_maximal files lines p :
  files !! "csbench.h"%string = Some lines →
  (preample files = Ok p ↔
   ∃ rest, lines = p ++ rest ∧
           Forall (λ l, startswith l comment = true) p ∧
           ∀ x, head rest = Some x → startswith x comment = false).
Proof.
  intros Hl. unfold preample, getitem. rewrite Hl. simpl. split.
  - intros [= <-]. exists (dropwhile (λ it, startswith it comment) lines).
    split; [by rewrite takewhile_dropwhile|].
    split; [apply takewhile_Forall | apply dropwhile_head].
  - intros (rest & -> & Hp & Hrest). f_equal.
    by apply takewhile_app_stop.
Qed.

Lemma preample_maximal_witness :
  header_only guarded_by_H !! "csbench.h"%string = Some guarded_by_H ∧
  (preample (header_only guarded_by_H) = Ok [lit "// lic"; lit "// lic2"] ↔
   ∃ rest, guarded_by_H = [lit "// lic"; lit "// lic2"] ++ rest ∧
           Forall (λ l, startswith l comment = true)
             [lit "// lic"; lit "// lic2"] ∧
           ∀ x, head rest = Some x → startswith x comment = false).
Proof.
  assert (header_only guarded_by_H !! "csbench.h"%string = Some guarded_by_H)
    as H by (vm_compute; reflexivity).
  split; [exact H | exact (preample_maximal _ _ _ H)].
Defined.

(** ** Reading lines *)

Lemma readlines_LF text : readlines (LF :: text) = [LF] :: readlines text.
Proof. reflexivity. Qed.

Lemma readlines_CR_LF text :
  readlines (CR :: LF :: text) = [LF] :: readlines text.
Proof. reflexivity. Qed.

Lemma readlines_CR text :
  head text ≠ Some LF → readlines (CR :: text) = [LF] :: readlines text.
Proof.
  intros H. change (readlines (CR :: text)) with
    (match text with
     | c' :: text'' =>
         if (c' =? LF)%N then [LF] :: readlines text''
         else [LF] :: readlines text
     | [] => [[LF]]
     end).
  destruct text as [|c' text'']; [done|].
  destruct (N.eqb_spec c' LF) as [->|]; [by destruct H | done].
Qed.

Lemma readlines_other c text :
  c ≠ LF → c ≠ CR →
  readlines (c :: text) =
  match readlines text with
  | [] => [[c]]
  | l :: ls => (c :: l) :: ls
  end.
Proof.
  intros H1%N.eqb_neq H2%N.eqb_neq. simpl. by rewrite H1, H2.
Qed.

(** X6. For a text without carriage return, the lines read, put end to
    end, are the text: reading loses and adds nothing. *)
Theorem readlines_join text :
  CR ∉ text → join (readlines text) = text.
Proof.
  unfold join. induction text as [|c text IH]; intros Hcr; [done|].
  apply not_elem_of_cons in Hcr as [Hc Hcr]. specialize (IH Hcr).
  destruct (decide (c = LF)) as [->|Hlf].
  - rewrite readlines_LF. simpl. by rewrite IH.
  - rewrite readlines_other by done.
    destruct (readlines text) as [|l ls]; simpl in *; rewrite <- IH; done.
Qed.

Lemma readlines_join_witness :
  (CR ∉ sample_text) ∧ join (readlines sample_text) = sample_text.
Proof.
  assert (CR ∉ sample_text) as H.
  { apply (bool_decide_unpack _). vm_compute. exact I. }
  split; [exact H | exact (readlines_join sample_text H)].
Defined.

Lemma well_read_LF lines : well_read lines → well_read ([LF] :: lines).
Proof.
  intros [Ha Hb]. split.
  - constructor; [|done]. split; [done|]. split.
    + by intros [=]%list_elem_of_singleton.
    + apply not_elem_of_nil.
  - destruct lines as [|l lines]; [constructor|].
    change (removelast ([LF] :: l :: lines))
      with ([LF] :: removelast (l :: lines)).
    by constructor.
Qed.

Lemma well_read_other c lines :
  c ≠ LF → c ≠ CR → well_read lines →
  well_read match lines with
            | [] => [[c]]
            | l :: ls => (c :: l) :: ls
            end.
Proof.
  intros Hlf Hcr [Ha Hb]. destruct lines as [|l ls].
  - split; [|constructor]. constructor; [|done]. split; [done|]. split.
    + intros H%list_elem_of_singleton. congruence.
    + apply not_elem_of_nil.
  - apply Forall_cons in Ha as [(Hne & Hcrl & Hlfl) Ha].
    destruct l as [|c' l]; [done|]. split.
    + constructor; [|done]. split; [done|]. split.
      * by apply not_elem_of_cons.
      * change (removelast (c :: c' :: l)) with (c :: removelast (c' :: l)).
        by apply not_elem_of_cons.
    + destruct ls as [|l' ls]; [constructor|].
      change (removelast ((c :: c' :: l) :: l' :: ls))
        with ((c :: c' :: l) :: removelast (l' :: ls)).
      change (removelast ((c' :: l) :: l' :: ls))
        with ((c' :: l) :: removelast (l' :: ls)) in Hb.
      apply Forall_cons in Hb as [Hl Hb]. by constructor.
Qed.

Lemma readlines_well_read_upto n text :
  length text ≤ n → well_read (readlines text).
Proof.
  revert text. induction n as [|n IH]; intros text Hn.
  { destruct text; [|simpl in Hn; lia]. split; constructor. }
  destruct text as [|c text]; [split; constructor|]. simpl in Hn.
  destruct (decide (c = LF)) as [->|Hlf].
  { rewrite readlines_LF. apply well_read_LF, IH. lia. }
  destruct (decide (c = CR)) as [->|Hcr].
  - destruct text as [|c' text].
    { apply (well_read_LF []). split; constructor. }
    destruct (decide (c' = LF)) as [->|Hlf'].
    + rewrite readlines_CR_LF. apply well_read_LF, IH. simpl in Hn. lia.
    + rewrite readlines_CR by (simpl; congruence).
      apply well_read_LF, IH. lia.
  - rewrite readlines_other by done. apply well_read_other; [done..|].
    apply IH. lia.
Qed.

(** X7. The lines read from a file are never empty and hold no carriage
    return; a line feed is the last character of a line or is not in it,
    and every line but the last ends with one. *)
Theorem readlines_well_read text : well_read (readlines text).
Proof. by apply (readlines_well_read_upto (length text)). Qed.

(** ** Loading *)





(** ** The outcome of the script *)



Lemma destination_not_input : destination ∉ file_names.
Proof.
  unfold file_names. intros H.
  repeat (apply elem_of_cons in H as [H|H]; [discriminate|]).
  by apply elem_of_nil in H.
Qed.










Lemma amalgamate_insert_destination fs text :
  amalgamate (<[destination := text]> fs) = amalgamate fs.
Proof.
  unfold amalgamate. rewrite (load_agree _ fs); [done|].
  intros name Hin. apply lookup_insert_ne. intros <-.
  by apply destination_not_input.
Qed.

(** X11. The script never changes one of the eight files it reads, and
    what it has written does not count for the next run: run again on
    the file system it leaves, it ends with the same outcome and leaves
    that file system as it is. *)
Theorem main_again fs :
  (∀ name, name ∈ file_names → (main fs).2 !! name = fs !! name) ∧
  main (main fs).2 = main fs.
Proof.
  unfold main. destruct (amalgamate fs) as [text|e] eqn:Ha; simpl.
  - split.
    + intros name Hin. apply lookup_insert_ne. intros <-.
      by apply destination_not_input.
    + rewrite amalgamate_insert_destination, Ha. by rewrite insert_insert_eq.
  - split; [done|]. by rewrite Ha.
Qed.

Lemma separator_no_marker m : m ∈ markers → contains m [LF] = false.
Proof.
  unfold markers. intros Hm.
  repeat (apply elem_of_cons in Hm as [->|Hm]; [reflexivity|]).
  by apply elem_of_nil in Hm.
Qed.

Lemma core_no_marker files name c l m :
  core files name = Ok c → l ∈ c → m ∈ markers → contains m l = false.
Proof.
  unfold core. intros (lines & _ & Hc)%result_bind_Ok Hl Hm.
  apply make_core_contents_inv in Hc as (a & b & Hf & _).
  pose proof (filtered_no_marker lines m Hm) as H. rewrite Hf in H.
  apply Forall_app in H as [_ [H _]%Forall_app].
  rewrite Forall_forall in H. apply negb_true_iff. by apply H.
Qed.

(** X12. In the assembled lines, a line that holds one of the four
    markers is a line of the preamble: after the preamble no line
    includes [csbench.h] or belongs to its include guard. *)
Theorem markers_only_in_preamble files out p :
  amalgamated_source files = Ok out →
  preample files = Ok p →
  ∃ rest, out = p ++ rest ∧
          ∀ l m, l ∈ rest → m ∈ markers → contains m l = false.
Proof.
  intros (p' & c1 & c2 & c3 & c4 & c5 & c6 & c7 & c8 & Hp & H1 & H2 & H3
          & H4 & H5 & H6 & H7 & H8 & ->)%amalgamated_source_Ok Hp'.
  rewrite Hp in Hp'. injection Hp' as ->. eexists. split; [reflexivity|].
  intros l m Hl Hm. rewrite !elem_of_app, !list_elem_of_singleton in Hl.
  destruct Hl as [Hl|[->|[Hl|[->|[Hl|[->|[Hl|[->|[Hl|[->|[Hl|[->|[Hl|[->|Hl]]]]]]]]]]]]]];
    first [by apply separator_no_marker | eauto using core_no_marker].
Qed.

Lemma markers_only_in_preamble_witness :
  amalgamated_source one_line_each = Ok one_line_each_source ∧
  preample one_line_each = Ok [] ∧
  ∃ rest, one_line_each_source = [] ++ rest ∧
          ∀ l m, l ∈ rest → m ∈ markers → contains m l = false.
Proof.
  assert (amalgamated_source one_line_each = Ok one_line_each_source) as H1
    by (vm_compute; reflexivity).
  assert (preample one_line_each = Ok []) as H2 by (vm_compute; reflexivity).
  split; [exact H1|]. split; [exact H2|].
  exact (markers_only_in_preamble _ _ _ H1 H2).
Defined.

(** * The sorting functions *)

(** ** [quicksort] *)







(** ** [bubblesort] *)

Lemma list_getitem_middle (pre : list Z) x rest :
  list_getitem (pre ++ x :: rest) (length pre) = Ok x.
Proof. unfold list_getitem. by rewrite list_lookup_middle. Qed.

Lemma list_setitem_middle (pre : list Z) x y rest :
  list_setitem (pre ++ x :: rest) (length pre) y = Ok (pre ++ y :: rest).
Proof.
  unfold list_setitem. rewrite decide_True.
  - by rewrite insert_app_r_alt, Nat.sub_diag.
  - rewrite length_app. simpl. lia.
Qed.

Lemma list_getitem_next (pre : list Z) x y rest :
  list_getitem (pre ++ x :: y :: rest) (length pre + 1) = Ok y.
Proof.
  replace (length pre + 1) with (length (pre ++ [x]))
    by (rewrite length_app; simpl; lia).
  rewrite (cons_middle x pre (y :: rest)), app_assoc.
  apply list_getitem_middle.
Qed.

Lemma list_setitem_next (pre : list Z) x y z rest :
  list_setitem (pre ++ x :: y :: rest) (length pre + 1) z
  = Ok (pre ++ x :: z :: rest).
Proof.
  replace (length pre + 1) with (length (pre ++ [x]))
    by (rewrite length_app; simpl; lia).
  rewrite (cons_middle x pre (y :: rest)), (cons_middle x pre (z :: rest)).
  rewrite !app_assoc. apply list_setitem_middle.
Qed.

Lemma bubblesort_step_middle (pre : list Z) x y rest :
  bubblesort_step (length pre) (pre ++ x :: y :: rest) =
  Ok (if (x >? y)%Z then pre ++ y :: x :: rest else pre ++ x :: y :: rest).
Proof.
  unfold bubblesort_step.
  rewrite list_getitem_middle, list_getitem_next. simpl.
  destruct (x >? y)%Z; [|done].
  rewrite list_setitem_middle. simpl. apply list_setitem_next.
Qed.

(** The inner loop from index [length pre] on is [bubble]. *)
Lemma bubblesort_inner (pre : list Z) x rest m :
  m ≤ length rest →
  for_in (seq (length pre) m) bubblesort_step (pre ++ x :: rest) =
  Ok (pre ++ bubble x (take m rest) ++ drop m rest).
Proof.
  revert pre x rest. induction m as [|m IH]; intros pre x rest Hm.
  { by rewrite take_0, drop_0. }
  destruct rest as [|y rest]; simpl in Hm; [lia|].
  rewrite <- cons_seq. simpl for_in. rewrite bubblesort_step_middle. simpl.
  assert (S (length pre) = length (pre ++ [y])) as Hy
    by (rewrite length_app; simpl; lia).
  assert (S (length pre) = length (pre ++ [x])) as Hx
    by (rewrite length_app; simpl; lia).
  destruct (x >? y)%Z.
  - replace (pre ++ y :: x :: rest) with ((pre ++ [y]) ++ x :: rest)
      by (by rewrite <- app_assoc).
    rewrite Hy, IH by lia. by rewrite <- !app_assoc.
  - replace (pre ++ x :: y :: rest) with ((pre ++ [x]) ++ y :: rest)
      by (by rewrite <- app_assoc).
    rewrite Hx, IH by lia. by rewrite <- !app_assoc.
Qed.

Lemma bubble_Permutation x l : bubble x l ≡ₚ x :: l.
Proof.
  revert x. induction l as [|y l IH]; intros x; simpl; [done|].
  destruct (x >? y)%Z.
  - rewrite IH. apply perm_swap.
  - by rewrite IH.
Qed.

(** [bubble] ends with an element that none of the others exceeds. *)
Lemma bubble_last x l :
  ∃ init mx, bubble x l = init ++ [mx] ∧ Forall (λ a, (a ≤ mx)%Z) init.
Proof.
  revert x. induction l as [|y l IH]; intros x; simpl.
  { by exists [], x. }
  destruct (Z.gtb_spec x y) as [Hgt|Hle].
  - destruct (IH x) as (init & mx & Hb & Hall). exists (y :: init), mx.
    rewrite Hb. split; [done|]. constructor; [|done].
    assert (x ∈ init ++ [mx]) as Hx.
    { rewrite <- Hb, bubble_Permutation. apply list_elem_of_here. }
    apply elem_of_app in Hx as [Hx|Hx%list_elem_of_singleton].
    + rewrite Forall_forall in Hall. apply Hall in Hx. lia.
    + lia.
  - destruct (IH y) as (init & mx & Hb & Hall). exists (x :: init), mx.
    rewrite Hb. split; [done|]. constructor; [|done].
    assert (y ∈ init ++ [mx]) as Hy.
    { rewrite <- Hb, bubble_Permutation. apply list_elem_of_here. }
    apply elem_of_app in Hy as [Hy|Hy%list_elem_of_singleton].
    + rewrite Forall_forall in Hall. apply Hall in Hy. lia.
    + lia.
Qed.

(** One round of the outer loop. *)
Lemma bubblesort_round arr0 i arr :
  bubbled i arr0 arr → i < length arr →
  ∃ arr', for_in (range (length arr - i - 1)) bubblesort_step arr = Ok arr' ∧
          bubbled (S i) arr0 arr'.
Proof.
  intros (front & back & -> & Hlen & Hs & Hle & Hp) Hi.
  rewrite length_app in Hi.
  destruct front as [|x front]; [simpl in Hi; lia|].
  replace (length ((x :: front) ++ back) - i - 1) with (length front)
    by (rewrite length_app; simpl; lia).
  pose proof (bubblesort_inner [] x (front ++ back) (length front)) as Hin.
  simpl in Hin. unfold range. simpl. rewrite Hin
    by (rewrite length_app; lia).
  rewrite take_app_length, drop_app_length.
  destruct (bubble_last x front) as (init & mx & Hb & Hall).
  pose proof (bubble_Permutation x front) as Hbp.
  eexists. split; [reflexivity|].
  exists init, (mx :: back). rewrite Hb, <- app_assoc. split; [done|].
  assert (mx ∈ x :: front) as Hmx.
  { rewrite <- Hbp, Hb. apply elem_of_app. right. apply list_elem_of_here. }
  split; [simpl; lia|]. split; [|split].
  - apply StronglySorted_cons. split; [|done].
    apply Forall_forall. intros b Hb'. by apply Hle.
  - intros a b Ha [->|Hb']%elem_of_cons.
    + rewrite Forall_forall in Hall. by apply Hall.
    + apply Hle; [|done]. rewrite <- Hbp, Hb.
      apply elem_of_app. by left.
  - rewrite <- Hp, <- Hbp, Hb. by rewrite <- app_assoc.
Qed.

Lemma bubbled_length i arr0 arr : bubbled i arr0 arr → length arr = length arr0.
Proof. intros (_ & _ & _ & _ & _ & _ & Hp). by rewrite Hp. Qed.

Lemma bubblesort_rounds_from arr0 k i arr :
  bubbled i arr0 arr → i + k ≤ length arr0 →
  ∃ arr', for_in (seq i k)
            (λ i arr, for_in (range (length arr - i - 1)) bubblesort_step arr)
            arr = Ok arr' ∧
          bubbled (i + k) arr0 arr'.
Proof.
  revert i arr. induction k as [|k IH]; intros i arr Hb Hik.
  { exists arr. by rewrite Nat.add_0_r. }
  rewrite <- cons_seq. simpl for_in.
  destruct (bubblesort_round arr0 i arr Hb) as (arr1 & -> & Hb1).
  { rewrite (bubbled_length i arr0) by done. lia. }
  simpl. destruct (IH (S i) arr1 Hb1) as (arr' & Harr' & Hb'); [lia|].
  exists arr'. split; [done|]. by rewrite <- Nat.add_succ_comm.
Qed.

Lemma bubbled_0 arr : bubbled 0 arr arr.
Proof.
  exists arr, []. rewrite app_nil_r. split; [done|]. split; [done|].
  split; [constructor|]. split; [|done]. by intros a b _ ?%elem_of_nil.
Qed.

Lemma bubblesort_Ok arr :
  ∃ arr', bubblesort arr = Ok arr' ∧ StronglySorted Z.le arr' ∧ arr' ≡ₚ arr.
Proof.
  destruct (bubblesort_rounds_from arr (length arr) 0 arr (bubbled_0 arr))
    as (arr' & Hrun & Hb); [lia|].
  exists arr'. split; [done|]. simpl in Hb.
  pose proof (bubbled_length _ _ _ Hb) as Hlen.
  destruct Hb as (front & back & -> & Hback & Hs & _ & Hp).
  rewrite length_app in Hlen. destruct front; [done | simpl in Hlen; lia].
Qed.

(** X15. After the first [i] rounds of the outer loop of [bubblesort]
    (for [i] up to the length of the list) no index was out of range, the
    list holds the same elements, and its last [i] elements are in order
    and not below any element before them. *)
Theorem bubblesort_rounds arr i :
  i ≤ length arr →
  ∃ arr', for_in (range i)
            (λ i arr, for_in (range (length arr - i - 1)) bubblesort_step arr)
            arr = Ok arr' ∧
          bubbled i arr arr'.
Proof.
  intros Hi.
  by destruct (bubblesort_rounds_from arr i 0 arr (bubbled_0 arr))
    as (arr' & Hrun & Hb); [lia | exists arr'].
Qed.

Lemma bubblesort_rounds_witness :
  2 ≤ length [3; 1; 2]%Z ∧
  ∃ arr', for_in (range 2)
            (λ i arr, for_in (range (length arr - i - 1)) bubblesort_step arr)
            [3; 1; 2]%Z = Ok arr' ∧
          bubbled 2 [3; 1; 2]%Z arr'.
Proof.
  assert (2 ≤ length [3; 1; 2]%Z) as H by (simpl; lia).
  split; [exact H | exact (bubblesort_rounds _ _ H)].
Defined.

(** X16. [bubblesort] never reads or writes out of range, and leaves the
    list sorted: the same elements, each as many times, in
    non-decreasing order. *)
Theorem bubblesort_sorts arr :
  ∃ arr', bubblesort arr = Ok arr' ∧ StronglySorted Z.le arr' ∧ arr' ≡ₚ arr.
Proof. apply bubblesort_Ok. Qed.

